(** * The pull-request labeler: rule parsing, rule evaluation, label reconciliation

    A shallow embedding of the labeler action (the revision with removable
    labels, merge-state labels and opened-only rules).  The configuration is
    an untyped value loaded from YAML, so the parser is modelled over a small
    type of JavaScript values; thrown exceptions are modelled by an error
    monad; the glob library is a parameter of the development.  The earlier
    revision, which only adds labels, is embedded beside it and related to
    it. *)

From Stdlib Require Import List String Bool ZArith DecimalString Lia.
Import ListNotations.
Local Open Scope string_scope.
Local Open Scope list_scope.

(** ** JavaScript values, as [yaml.safeLoad] produces them *)

#[local] Set Warnings "-register-all".

Inductive jsval : Type :=
| JUndefined
| JNull
| JBool (b : bool)
| JNum (n : Z)
| JStr (s : string)
| JArr (elems : list jsval)
| JObj (fields : list (string * jsval)).

(** ** Exceptions *)

(** [Error msg] is [throw Error(msg)]; [TypeError] is the exception the
    engine raises on a property read from [null] or [undefined] (its message
    is the engine's, and is not modelled). *)
Inductive exn : Type :=
| Error (message : string)
| TypeError.

Inductive result (A : Type) : Type :=
| Ok (a : A)
| Throw (e : exn).
Arguments Ok {A} a.
Arguments Throw {A} e.

Definition bind {A B : Type} (r : result A) (k : A -> result B) : result B :=
  match r with
  | Ok a => k a
  | Throw e => Throw e
  end.

Notation "x <- r ;; k" := (bind r (fun x => k))
  (at level 61, r at next level, right associativity).

(** ** Property access and enumeration *)

Fixpoint lookup (k : string) (fields : list (string * jsval)) : jsval :=
  match fields with
  | [] => JUndefined
  | (k', v) :: rest => if String.eqb k k' then v else lookup k rest
  end.

(** [v[k]] for the keys the parser reads (["type"], ["patterns"],
    ["removable"], ["opened_only"]): none of them is a property of a string,
    a number, a boolean or an array, so only a mapping can answer with
    something else than [undefined]; reading from [null] or [undefined]
    throws. *)
Definition get_field (v : jsval) (k : string) : result jsval :=
  match v with
  | JUndefined | JNull => Throw TypeError
  | JObj fields => Ok (lookup k fields)
  | _ => Ok JUndefined
  end.

Definition index_key (i : nat) : string :=
  NilEmpty.string_of_uint (Nat.to_uint i).

Fixpoint chars (s : string) : list jsval :=
  match s with
  | EmptyString => []
  | String c rest => JStr (String c EmptyString) :: chars rest
  end.

Definition indexed (l : list jsval) : list (string * jsval) :=
  combine (map index_key (seq 0 (List.length l))) l.

(** [for (const label in v)], each key paired with [v[label]].  The fields
    of a mapping are listed in the object's enumeration order (a JavaScript
    object has no duplicate keys); an array or a string enumerates its
    indices; nothing else has enumerable properties. *)
Definition for_in (v : jsval) : list (string * jsval) :=
  match v with
  | JObj fields => fields
  | JArr elems => indexed elems
  | JStr s => indexed (chars s)
  | _ => []
  end.

(** ** The rule model *)

(** [const enum LabelType]: its members are inlined as these strings. *)
Module LabelType.
Definition filesChanged : string := "filesChanged".
Definition title : string := "title".
Definition mergeState : string := "mergeState".
Definition alwaysRemove : string := "alwaysRemove".
End LabelType.

(** [class LabelerKey].  The field [type] is declared [LabelType], but the
    parser stores whatever string the configuration holds, so it is a
    string here. *)
Record LabelerKey : Type := mkLabelerKey {
  label : string;
  type : string;
  removable : bool;
  opened_only : bool
}.

(** [Map<LabelerKey, string[]>]: every key is a fresh object, so the map is
    the list of its entries in insertion order.  The globs are the value
    found in the configuration, whatever its elements are. *)
Definition LabelGlobs : Type := list (LabelerKey * list jsval).

(** ** getLabelGlobMapFromObject *)

Definition patterns_error (label : string) : exn :=
  Error ("found unexpected type for label patterns " ++ label ++
         " (should be string or array of globs)")%string.

Definition keytype_of (v : jsval) : string :=
  match v with
  | JStr s => s
  | _ => LabelType.filesChanged
  end.

Definition bool_or_false (v : jsval) : bool :=
  match v with
  | JBool b => b
  | _ => false
  end.

(** One iteration of the loop over the configuration's keys. *)
Definition parse_entry (label : string) (body : jsval)
  : result (LabelerKey * list jsval) :=
  ty <- get_field body "type" ;;
  let keytype := keytype_of ty in
  rm <- get_field body "removable" ;;
  let removable := bool_or_false rm in
  oo <- get_field body "opened_only" ;;
  let opened_only := bool_or_false oo in
  patterns <- get_field body "patterns" ;;
  match patterns with
  | JStr p =>
      Ok (mkLabelerKey label keytype removable opened_only, [JStr p])
  | JArr globs =>
      Ok (mkLabelerKey label keytype removable opened_only, globs)
  | _ =>
      if String.eqb keytype LabelType.alwaysRemove
         || String.eqb keytype LabelType.mergeState
      then Ok (mkLabelerKey label keytype removable opened_only,
               [JStr "not applicable"])
      else Throw (patterns_error label)
  end.

Fixpoint parse_entries (entries : list (string * jsval)) (labelGlobs : LabelGlobs)
  : result LabelGlobs :=
  match entries with
  | [] => Ok labelGlobs
  | (label, body) :: rest =>
      entry <- parse_entry label body ;;
      parse_entries rest (labelGlobs ++ [entry])
  end.

Definition getLabelGlobMapFromObject (configObject : jsval) : result LabelGlobs :=
  parse_entries (for_in configObject) [].

(** ** The facts of one pull request *)

(** [mergeable] is [null] while the platform has not computed it; [action]
    is the event's action, [undefined] when the payload has none. *)
Record PrFacts : Type := mkPrFacts {
  action : option string;
  changedFiles : list string;
  prTitle : string;
  current_labels : list string;
  mergeable : option bool
}.

(** [!mergeable]: [null] is falsy. *)
Definition not_mergeable (m : option bool) : bool :=
  match m with
  | Some true => false
  | _ => true
  end.

(** [action !== "opened"]. *)
Definition action_not_opened (a : option string) : bool :=
  match a with
  | Some s => negb (String.eqb s "opened")
  | None => true
  end.

(** ** updateLabels *)

(** [Set.prototype.add]: a set keeps its elements in insertion order. *)
Definition Set_add (s : list string) (x : string) : list string :=
  if existsb (String.eqb x) s then s else s ++ [x].

(** [[...new Set(l)]]. *)
Definition new_Set (l : list string) : list string :=
  fold_left Set_add l [].

(** [l.includes(p)]. *)
Definition includes (l : list string) (p : string) : bool :=
  existsb (String.eqb p) l.

(** [updateLabels], as the [resulting_labels] it hands to [replaceLabels]. *)
Definition updateLabels
  (current_labels labels_to_add labels_to_remove : list string) : list string :=
  filter (fun p => negb (includes labels_to_remove p))
         (new_Set (current_labels ++ labels_to_add)).

(** What one invocation finds: the result of [getPrNumber] ([None] for
    [undefined], when the event's payload has no pull request), the facts
    and the loaded configuration that the providers returned. *)
Record Invocation : Type := mkInvocation {
  prNumber : option Z;
  facts : PrFacts;
  configObject : jsval
}.

(** What [run] does to the outside. *)
Inductive effect : Type :=
| ReplaceLabels (issue_number : Z) (labels : list string)
| SetFailed (e : exn).

(** ** A glob library without wildcards

    It serves to run the definitions on examples: a pattern matches the
    candidate equal to it, and a pattern that is not a string is refused. *)
Definition exact_Minimatch (glob : jsval) : result (string -> bool) :=
  match glob with
  | JStr pattern => Ok (String.eqb pattern)
  | _ => Throw TypeError
  end.

(** ** The specification's rule model, in its own words *)

Definition recognized (s : string) : bool :=
  String.eqb s LabelType.filesChanged || String.eqb s LabelType.title
  || String.eqb s LabelType.mergeState || String.eqb s LabelType.alwaysRemove.

(** "[trigger := rule-body.type] if present and a recognized string, else
    [FilesChanged]". *)
Definition spec_trigger (ty : jsval) : string :=
  match ty with
  | JStr s => if recognized s then s else LabelType.filesChanged
  | _ => LabelType.filesChanged
  end.

Definition is_string (v : jsval) : bool :=
  match v with
  | JStr _ => true
  | _ => false
  end.

(** The kinds for which patterns are not required: always-remove and
    merge-state. *)
Definition patterns_not_required (trigger : string) : bool :=
  String.eqb trigger LabelType.alwaysRemove
  || String.eqb trigger LabelType.mergeState.

(** The four cases of the specification for the [patterns] field; [None]
    stands for "parse fails with a ConfigurationError". *)
Definition spec_patterns (trigger : string) (patterns : jsval) : option (list jsval) :=
  match patterns with
  | JStr p => Some [JStr p]
  | JArr l =>
      if forallb is_string l then Some l
      else if patterns_not_required trigger then Some [JStr "not applicable"]
      else None
  | _ =>
      if patterns_not_required trigger then Some [JStr "not applicable"]
      else None
  end.

(** "Non-empty for [FilesChanged]/[Title]". *)
Definition spec_patterns_nonempty (key : LabelerKey) (globs : list jsval) : Prop :=
  type key = LabelType.filesChanged \/ type key = LabelType.title -> globs <> [].



(** An error that names the label in its message. *)
Definition names_label (e : exn) (label : string) : Prop :=
  exists before after, e = Error (before ++ label ++ after)%string.

(** ** Sample inputs *)

Definition sample_facts : PrFacts :=
  mkPrFacts (Some "synchronize") ["README.md"; "main.go"] "Fix typo"
            ["bug"; "stale"] (Some true).

Definition docs_key : LabelerKey :=
  mkLabelerKey "docs" LabelType.filesChanged false false.

Definition triage_key : LabelerKey :=
  mkLabelerKey "triage" LabelType.filesChanged true true.

(** [{patterns: [1]}]: an array whose element is not a string. *)
Definition numeric_patterns_entry : jsval :=
  JObj [("patterns", JArr [JNum 1])].

(** [{type: "bogus", patterns: "README.md"}]. *)
Definition bogus_type_entry : jsval :=
  JObj [("type", JStr "bogus"); ("patterns", JStr "README.md")].

(** [{bug: {patterns: []}}]. *)
Definition empty_patterns_config : jsval :=
  JObj [("bug", JObj [("patterns", JArr [])])].

(** [{stale: {type: "alwaysRemove"}, bug: {patterns: "main.c", removable: true}}]. *)
Definition sample_config : jsval :=
  JObj [("stale", JObj [("type", JStr "alwaysRemove")]);
        ("bug", JObj [("patterns", JStr "main.c"); ("removable", JBool true)])].

(** ** The earlier revision of the action

    The earlier revision knows two kinds of rules, reads neither
    [removable] nor [opened_only], and only ever adds labels, through
    [addLabels].  It has its own copy of [checkGlobs]. *)
Module Main.

Record LabelerKey : Type := mkLabelerKey {
  label : string;
  type : string
}.

Definition LabelGlobs : Type := list (LabelerKey * list jsval).

(** One iteration of the loop of [getLabelGlobMapFromObject]. *)
Definition parse_entry (label : string) (body : jsval)
  : result (LabelerKey * list jsval) :=
  ty <- get_field body "type" ;;
  let keytype := keytype_of ty in
  patterns <- get_field body "patterns" ;;
  match patterns with
  | JStr p => Ok (mkLabelerKey label keytype, [JStr p])
  | JArr globs => Ok (mkLabelerKey label keytype, globs)
  | _ => Throw (patterns_error label)
  end.

Fixpoint parse_entries (entries : list (string * jsval)) (labelGlobs : LabelGlobs)
  : result LabelGlobs :=
  match entries with
  | [] => Ok labelGlobs
  | (label, body) :: rest =>
      entry <- parse_entry label body ;;
      parse_entries rest (labelGlobs ++ [entry])
  end.

Definition getLabelGlobMapFromObject (configObject : jsval) : result LabelGlobs :=
  parse_entries (for_in configObject) [].

(** What one invocation finds: the result of [getPrNumber], the changed
    files, the title and the loaded configuration. *)
Record Invocation : Type := mkInvocation {
  prNumber : option Z;
  changedFiles : list string;
  prTitle : string;
  configObject : jsval
}.

Inductive effect : Type :=
| AddLabels (issue_number : Z) (labels : list string)
| SetFailed (e : exn).

Section Evaluate.

Variable Minimatch : jsval -> result (string -> bool).

Fixpoint some_file_matches (matcher : string -> bool) (files : list string) : bool :=
  match files with
  | [] => false
  | changedFile :: rest =>
      if matcher changedFile then true else some_file_matches matcher rest
  end.

Fixpoint checkGlobs (files : list string) (globs : list jsval) : result bool :=
  match globs with
  | [] => Ok false
  | glob :: rest =>
      matcher <- Minimatch glob ;;
      if some_file_matches matcher files then Ok true
      else checkGlobs files rest
  end.

(** One iteration of the rule loop of [run]. *)
Definition process_rule (files : list string) (title : string)
           (labels : list string) (rule : LabelerKey * list jsval)
  : result (list string) :=
  let (key, globs) := rule in
  if String.eqb (type key) "filesChanged" then
    c <- checkGlobs files globs ;;
    if c then Ok (labels ++ [label key]) else Ok labels
  else if String.eqb (type key) "title" then
    c <- checkGlobs [title] globs ;;
    if c then Ok (labels ++ [label key]) else Ok labels
  else Ok labels.

Fixpoint process_rules (files : list string) (title : string)
         (rules : LabelGlobs) (labels : list string) : result (list string) :=
  match rules with
  | [] => Ok labels
  | rule :: rest =>
      labels' <- process_rule files title labels rule ;;
      process_rules files title rest labels'
  end.

Definition labels_decided (i : Invocation) : result (list string) :=
  labelGlobs <- getLabelGlobMapFromObject (configObject i) ;;
  process_rules (changedFiles i) (prTitle i) labelGlobs [].

Definition run (i : Invocation) : list effect :=
  match prNumber i with
  | None => []
  | Some issue_number =>
      if Z.eqb issue_number 0 then []
      else
        match labels_decided i with
        | Throw e => [SetFailed e]
        | Ok labels =>
            if (0 <? List.length labels)%nat
            then [AddLabels issue_number labels]
            else []
        end
  end.

End Evaluate.

End Main.

(** A rule of the later revision, as the earlier revision sees it. *)
Definition earlier_rule (rule : LabelerKey * list jsval)
  : Main.LabelerKey * list jsval :=
  (Main.mkLabelerKey (label (fst rule)) (type (fst rule)), snd rule).

(** An invocation of the later revision, as the earlier revision sees it. *)
Definition earlier_invocation (i : Invocation) : Main.Invocation :=
  Main.mkInvocation (prNumber i) (changedFiles (facts i)) (prTitle (facts i))
                    (configObject i).

(** A rule that the opened-only check lets through and that is neither an
    always-remove nor a merge-state rule. *)
Definition evaluated_by_both (facts : PrFacts) (rule : LabelerKey * list jsval) : Prop :=
  opened_only (fst rule) && action_not_opened (action facts) = false
  /\ patterns_not_required (type (fst rule)) = false.

(** ** Sample inputs for the further properties *)

(** [{docs: {patterns: ["README.md", 1]}, bug: {patterns: 3}}]. *)
Definition failing_config : jsval :=
  JObj [("docs", JObj [("patterns", JArr [JStr "README.md"; JNum 1])]);
        ("bug", JObj [("patterns", JNum 3)])].

(** [{docs: {patterns: "README.md"}, wip: {type: "title", patterns: ["Fix typo"]}}]. *)
Definition two_kinds_config : jsval :=
  JObj [("docs", JObj [("patterns", JStr "README.md")]);
        ("wip", JObj [("type", JStr "title"); ("patterns", JArr [JStr "Fix typo"])])].

(** [{patterns: "docs.md", removable: "true", opened_only: true}]. *)
Definition flags_entry : jsval :=
  JObj [("patterns", JStr "docs.md"); ("removable", JStr "true");
        ("opened_only", JBool true)].

Definition sample_invocation : Invocation :=
  mkInvocation (Some 7%Z) sample_facts sample_config.

Definition two_kinds_invocation : Invocation :=
  mkInvocation (Some 7%Z) sample_facts two_kinds_config.

Section Labeler.

(** [new Minimatch(glob)], from the glob library: either it throws, or it
    gives a matcher, whose [match] decides a candidate string. *)
Variable Minimatch : jsval -> result (string -> bool).

(** ** checkGlobs *)

(** The inner loop of [checkGlobs], for one matcher. *)
Fixpoint some_file_matches (matcher : string -> bool) (files : list string) : bool :=
  match files with
  | [] => false
  | changedFile :: rest =>
      if matcher changedFile then true else some_file_matches matcher rest
  end.

Fixpoint checkGlobs (files : list string) (globs : list jsval) : result bool :=
  match globs with
  | [] => Ok false
  | glob :: rest =>
      matcher <- Minimatch glob ;;
      if some_file_matches matcher files then Ok true
      else checkGlobs files rest
  end.

(** A glob [compiles] when the library accepts it; it [matches] a candidate
    when its matcher says so. *)
Definition compiles (glob : jsval) : Prop :=
  exists matcher, Minimatch glob = Ok matcher.

Definition matches (glob : jsval) (candidate : string) : Prop :=
  exists matcher, Minimatch glob = Ok matcher /\ matcher candidate = true.

(** ** The rule loop of [run] *)

Definition Decision : Type := (list string * list string)%type.

Definition push_add (d : Decision) (l : string) : Decision :=
  (fst d ++ [l], snd d).

Definition push_remove (d : Decision) (l : string) : Decision :=
  (fst d, snd d ++ [l]).

(** The [switch] on [label.type], the cases in the order of the source; it
    has no [default] case. *)
Definition dispatch (facts : PrFacts) (key : LabelerKey) (globs : list jsval)
           (d : Decision) : result Decision :=
  if String.eqb (type key) LabelType.filesChanged then
    c <- checkGlobs (changedFiles facts) globs ;;
    if c then Ok (push_add d (label key))
    else if removable key then Ok (push_remove d (label key))
    else Ok d
  else if String.eqb (type key) LabelType.alwaysRemove then
    Ok (push_remove d (label key))
  else if String.eqb (type key) LabelType.mergeState then
    if not_mergeable (mergeable facts) then Ok (push_add d (label key))
    else if removable key then Ok (push_remove d (label key))
    else Ok d
  else if String.eqb (type key) LabelType.title then
    c <- checkGlobs [prTitle facts] globs ;;
    if c then Ok (push_add d (label key))
    else if removable key then Ok (push_remove d (label key))
    else Ok d
  else Ok d.

(** One iteration of the loop over the parsed rules. *)
Definition process_rule (facts : PrFacts) (d : Decision)
           (rule : LabelerKey * list jsval) : result Decision :=
  let (key, globs) := rule in
  if opened_only key && action_not_opened (action facts) then Ok d
  else dispatch facts key globs d.

Fixpoint process_rules (facts : PrFacts) (rules : LabelGlobs) (d : Decision)
  : result Decision :=
  match rules with
  | [] => Ok d
  | rule :: rest =>
      d' <- process_rule facts d rule ;;
      process_rules facts rest d'
  end.

(** [labels_to_add] and [labels_to_remove] after the loop. *)
Definition decide_labels (facts : PrFacts) (rules : LabelGlobs) : result Decision :=
  process_rules facts rules ([], []).

(** ** run *)

(** The body of [run] from the parse of the configuration to the end of the
    rule loop: [labels_to_add] and [labels_to_remove], or the exception that
    [run] catches. *)
Definition labels_decided (i : Invocation) : result Decision :=
  labelGlobs <- getLabelGlobMapFromObject (configObject i) ;;
  decide_labels (facts i) labelGlobs.

(** [run] returns early on [!prNumber], which [undefined] and zero both
    satisfy.  The inputs and the providers have answered (that is what an
    [Invocation] holds) and the replacement call is taken to succeed: the
    rejections of [getInput], of the providers, of the YAML loader and of
    [replaceLabels], which the same [catch] turns into a failure report,
    are outside this model. *)
Definition run (i : Invocation) : list effect :=
  match prNumber i with
  | None => []
  | Some issue_number =>
      if Z.eqb issue_number 0 then []
      else
        match labels_decided i with
        | Throw e => [SetFailed e]
        | Ok (labels_to_add, labels_to_remove) =>
            if (0 <? List.length labels_to_add)%nat
               || (0 <? List.length labels_to_remove)%nat
            then [ReplaceLabels issue_number
                    (updateLabels (current_labels (facts i))
                                  labels_to_add labels_to_remove)]
            else []
        end
  end.

(** * Properties *)

(** ** The label reconciler *)

Lemma includes_In (l : list string) (p : string) :
  includes l p = true <-> In p l.
Proof.
  unfold includes. rewrite existsb_exists. split.
  - intros [y [Hy Heq]]. apply String.eqb_eq in Heq. now subst.
  - intros H. exists p. split; [assumption | apply String.eqb_refl].
Qed.

Lemma includes_false (l : list string) (p : string) :
  includes l p = false <-> ~ In p l.
Proof.
  rewrite <- includes_In. destruct (includes l p); split; congruence.
Qed.

Lemma Set_add_In (s : list string) (y x : string) :
  In x (Set_add s y) <-> In x s \/ x = y.
Proof.
  unfold Set_add. fold (includes s y).
  destruct (includes s y) eqn:E.
  - apply includes_In in E. split; [now left | intros [H | ->]; assumption].
  - rewrite in_app_iff. simpl. intuition congruence.
Qed.

Lemma Set_add_NoDup (s : list string) (y : string) :
  NoDup s -> NoDup (Set_add s y).
Proof.
  intros H. unfold Set_add. fold (includes s y).
  destruct (includes s y) eqn:E; [assumption |].
  apply includes_false in E.
  apply NoDup_app; [assumption | repeat constructor; intros [] | ].
  intros a Ha [<- | []]. contradiction.
Qed.

Lemma fold_Set_add_In (l s : list string) (x : string) :
  In x (fold_left Set_add l s) <-> In x s \/ In x l.
Proof.
  revert s. induction l as [| y l IH]; intros s; simpl.
  - tauto.
  - rewrite IH, Set_add_In. intuition congruence.
Qed.

Lemma fold_Set_add_NoDup (l s : list string) :
  NoDup s -> NoDup (fold_left Set_add l s).
Proof.
  revert s. induction l as [| y l IH]; intros s H; simpl.
  - assumption.
  - apply IH, Set_add_NoDup, H.
Qed.

Lemma new_Set_In (l : list string) (x : string) :
  In x (new_Set l) <-> In x l.
Proof.
  unfold new_Set. rewrite fold_Set_add_In. simpl. tauto.
Qed.

Lemma new_Set_NoDup (l : list string) : NoDup (new_Set l).
Proof.
  apply fold_Set_add_NoDup. constructor.
Qed.

(** Adding the elements of a list without repetition appends the list. *)
Lemma fold_Set_add_fresh (l s : list string) :
  NoDup (s ++ l) -> fold_left Set_add l s = s ++ l.
Proof.
  revert s. induction l as [| y l IH]; intros s H; simpl.
  - now rewrite app_nil_r.
  - assert (Hy : includes s y = false).
    { apply includes_false. intros Hin.
      apply NoDup_remove_2 in H. apply H, in_or_app. now left. }
    unfold Set_add at 2. fold (includes s y). rewrite Hy.
    replace (s ++ y :: l) with ((s ++ [y]) ++ l) in *
      by (rewrite <- app_assoc; reflexivity).
    apply IH, H.
Qed.

Lemma new_Set_NoDup_id (l : list string) : NoDup l -> new_Set l = l.
Proof.
  intros H. unfold new_Set. now rewrite fold_Set_add_fresh.
Qed.

(** Elements that are removed afterwards may be added freely. *)
Lemma filter_fold_Set_add (r a s : list string) :
  (forall x, In x a -> In x s \/ In x r) ->
  filter (fun p => negb (includes r p)) (fold_left Set_add a s)
  = filter (fun p => negb (includes r p)) s.
Proof.
  revert s. induction a as [| y a IH]; intros s H; simpl; [reflexivity |].
  rewrite IH.
  - unfold Set_add. fold (includes s y).
    destruct (includes s y) eqn:E; [reflexivity |].
    rewrite filter_app. simpl.
    destruct (H y (or_introl eq_refl)) as [Hs | Hr].
    + apply includes_In in Hs. congruence.
    + apply includes_In in Hr. rewrite Hr. simpl. apply app_nil_r.
  - intros x Hx. rewrite Set_add_In.
    destruct (H x (or_intror Hx)); tauto.
Qed.

Lemma filter_filter_same {A : Type} (f : A -> bool) (l : list A) :
  filter f (filter f l) = filter f l.
Proof.
  induction l as [| x l IH]; simpl; [reflexivity |].
  destruct (f x) eqn:E; simpl; [rewrite E, IH |]; auto.
Qed.

Lemma updateLabels_In (c a r : list string) (x : string) :
  In x (updateLabels c a r) <-> (In x c \/ In x a) /\ ~ In x r.
Proof.
  unfold updateLabels.
  rewrite filter_In, new_Set_In, in_app_iff, negb_true_iff, includes_false.
  tauto.
Qed.

Lemma updateLabels_NoDup (c a r : list string) : NoDup (updateLabels c a r).
Proof.
  unfold updateLabels. apply NoDup_filter, new_Set_NoDup.
Qed.

(** C1: the labels handed to the replacement call are, as a set, the union
    of the current labels and [labels_to_add] minus [labels_to_remove]:
    the sequence has no duplicates, a label is in it exactly when it is
    current or added and not removed, and so a label that is both added and
    removed is absent. *)
Theorem updateLabels_union_minus (c a r : list string) :
  NoDup (updateLabels c a r)
  /\ (forall x, In x (updateLabels c a r) <-> (In x c \/ In x a) /\ ~ In x r)
  /\ (forall x, ~ (In x a /\ In x r /\ In x (updateLabels c a r))).
Proof.
  split; [apply updateLabels_NoDup |].
  split; [apply updateLabels_In |].
  intros x (_ & Hr & H). apply updateLabels_In in H. tauto.
Qed.

(** C9: reconciling the result once more with the same additions and
    removals gives the same sequence of labels. *)
Theorem updateLabels_idempotent (c a r : list string) :
  updateLabels (updateLabels c a r) a r = updateLabels c a r.
Proof.
  unfold updateLabels at 1. unfold new_Set.
  rewrite fold_left_app.
  fold (new_Set (updateLabels c a r)).
  rewrite new_Set_NoDup_id by apply updateLabels_NoDup.
  rewrite filter_fold_Set_add.
  - unfold updateLabels. apply filter_filter_same.
  - intros x Hx. rewrite updateLabels_In.
    destruct (includes r x) eqn:E.
    + right. now apply includes_In.
    + left. apply includes_false in E. tauto.
Qed.

(** ** The pattern matcher *)

Lemma some_file_matches_exists (matcher : string -> bool) (files : list string) :
  some_file_matches matcher files = true
  <-> exists f, In f files /\ matcher f = true.
Proof.
  induction files as [| f files IH]; simpl.
  - split; [discriminate | intros (f & [] & _)].
  - destruct (matcher f) eqn:E.
    + split; [intros _; exists f; auto | reflexivity].
    + rewrite IH. split.
      * intros (g & Hg & Hm). exists g. auto.
      * intros (g & [<- | Hg] & Hm); [congruence | exists g; auto].
Qed.

Lemma checkGlobs_total (files : list string) (globs : list jsval) :
  Forall compiles globs -> exists b, checkGlobs files globs = Ok b.
Proof.
  induction 1 as [| glob globs [matcher Hm] _ IH]; simpl.
  - now exists false.
  - rewrite Hm. simpl.
    destruct (some_file_matches matcher files); [now exists true | exact IH].
Qed.

Lemma checkGlobs_true (files : list string) (globs : list jsval) :
  Forall compiles globs ->
  (checkGlobs files globs = Ok true
   <-> exists glob f, In glob globs /\ In f files /\ matches glob f).
Proof.
  induction 1 as [| glob globs [matcher Hm] _ IH]; simpl.
  - split; [discriminate | intros (g & f & [] & _)].
  - rewrite Hm. simpl.
    destruct (some_file_matches matcher files) eqn:E.
    + split; [intros _ | reflexivity].
      apply some_file_matches_exists in E. destruct E as (f & Hf & Hmf).
      exists glob, f. repeat split; auto. now exists matcher.
    + rewrite IH. split.
      * intros (g & f & Hg & Hf & Hgf). exists g, f. auto.
      * intros (g & f & [<- | Hg] & Hf & Hgf); [| exists g, f; auto].
        destruct Hgf as (m' & Hm' & Hmf). rewrite Hm in Hm'.
        injection Hm' as <-.
        assert (some_file_matches matcher files = true)
          by (apply some_file_matches_exists; exists f; auto).
        congruence.
Qed.

Lemma checkGlobs_no_files (globs : list jsval) :
  Forall compiles globs -> checkGlobs [] globs = Ok false.
Proof.
  induction 1 as [| glob globs [matcher Hm] _ IH]; simpl; [reflexivity |].
  rewrite Hm. exact IH.
Qed.

(** C7: [checkGlobs] answers, and answers true exactly when some pattern
    matches some candidate; with no candidate or no pattern the answer is
    false.  The patterns are those the glob library accepts. *)
Theorem checkGlobs_any_match (files : list string) (globs : list jsval) :
  Forall compiles globs ->
  (exists b, checkGlobs files globs = Ok b)
  /\ (checkGlobs files globs = Ok true
      <-> exists glob f, In glob globs /\ In f files /\ matches glob f)
  /\ checkGlobs [] globs = Ok false
  /\ checkGlobs files [] = Ok false.
Proof.
  intros H. repeat split.
  - now apply checkGlobs_total.
  - now apply checkGlobs_true.
  - now apply checkGlobs_true.
  - now apply checkGlobs_no_files.
Qed.

(** ** The rule evaluator *)


Lemma process_rules_app (facts : PrFacts) (before after : LabelGlobs) (d : Decision) :
  process_rules facts (before ++ after) d
  = (d' <- process_rules facts before d ;; process_rules facts after d').
Proof.
  revert d. induction before as [| rule before IH]; intros d; simpl.
  - reflexivity.
  - destruct (process_rule facts d rule) as [d' | e]; simpl; [apply IH | reflexivity].
Qed.

(** A rule that leaves every decision as it is can be dropped from the
    rule set. *)
Lemma process_rules_drop (facts : PrFacts) (rule : LabelerKey * list jsval)
      (before after : LabelGlobs) (d : Decision) :
  (forall d', process_rule facts d' rule = Ok d') ->
  process_rules facts (before ++ rule :: after) d
  = process_rules facts (before ++ after) d.
Proof.
  intros H. rewrite !process_rules_app.
  destruct (process_rules facts before d) as [d' | e]; simpl; [| reflexivity].
  now rewrite H.
Qed.


(** C6: a rule marked opened-only contributes nothing when the event's
    action is not "opened": it leaves both lists as they are, whatever its
    kind, patterns and removable flag, and the decision of the whole rule
    set is the one of the rule set without it. *)
Theorem opened_only_rule_skipped (facts : PrFacts) (key : LabelerKey)
        (globs : list jsval) :
  opened_only key = true ->
  action facts <> Some "opened" ->
  (forall d, process_rule facts d (key, globs) = Ok d)
  /\ (forall before after d,
        process_rules facts (before ++ (key, globs) :: after) d
        = process_rules facts (before ++ after) d).
Proof.
  intros Hoo Hact.
  assert (Hskip : forall d, process_rule facts d (key, globs) = Ok d).
  { intros d. unfold process_rule. rewrite Hoo.
    replace (action_not_opened (action facts)) with true; [reflexivity |].
    unfold action_not_opened. destruct (action facts) as [a |]; [| reflexivity].
    destruct (String.eqb_spec a "opened"); [congruence | reflexivity]. }
  split; [exact Hskip |].
  intros before after d. now apply process_rules_drop.
Qed.

(** ** The rule parser *)

(** A body that answers one property read answers them all. *)
Lemma get_field_readable (body : jsval) (k : string) (v : jsval) :
  get_field body k = Ok v -> forall k', exists v', get_field body k' = Ok v'.
Proof.
  intros H k'. destruct body; simpl in *; try discriminate; eauto.
Qed.

Lemma parse_entry_unfold (label : string) (body ty rm oo patterns : jsval) :
  get_field body "type" = Ok ty ->
  get_field body "removable" = Ok rm ->
  get_field body "opened_only" = Ok oo ->
  get_field body "patterns" = Ok patterns ->
  parse_entry label body =
  let key := mkLabelerKey label (keytype_of ty) (bool_or_false rm) (bool_or_false oo) in
  match patterns with
  | JStr p => Ok (key, [JStr p])
  | JArr globs => Ok (key, globs)
  | _ => if patterns_not_required (keytype_of ty)
         then Ok (key, [JStr "not applicable"])
         else Throw (patterns_error label)
  end.
Proof.
  intros Hty Hrm Hoo Hp. unfold parse_entry.
  rewrite Hty, Hrm, Hoo, Hp. simpl. unfold patterns_not_required.
  destruct patterns; reflexivity.
Qed.

Lemma parse_entry_fields (label : string) (body : jsval) (r : LabelerKey * list jsval) :
  parse_entry label body = Ok r ->
  exists ty rm oo patterns,
    get_field body "type" = Ok ty /\ get_field body "removable" = Ok rm
    /\ get_field body "opened_only" = Ok oo
    /\ get_field body "patterns" = Ok patterns.
Proof.
  intros H. destruct body; simpl in H; try discriminate; simpl; eauto 10.
Qed.

Lemma patterns_error_names_label (label : string) :
  names_label (patterns_error label) label.
Proof.
  unfold names_label, patterns_error. eauto.
Qed.

(** A failing entry fails the whole parse. *)
Lemma parse_entries_fail (entries : list (string * jsval)) (label : string)
      (body : jsval) (e0 : exn) (acc : LabelGlobs) :
  In (label, body) entries ->
  parse_entry label body = Throw e0 ->
  exists e, parse_entries entries acc = Throw e.
Proof.
  intros Hin Hfail. revert acc.
  induction entries as [| [l b] entries IH]; intros acc; [destruct Hin |].
  simpl. destruct (parse_entry l b) as [r | e] eqn:E; simpl.
  - destruct Hin as [Heq | Hin]; [| now apply IH].
    injection Heq as -> ->. congruence.
  - now exists e.
Qed.

(** Every rule of a successful parse is the parse of one entry. *)
Lemma parse_entries_In (entries : list (string * jsval)) (acc rules : LabelGlobs)
      (r : LabelerKey * list jsval) :
  parse_entries entries acc = Ok rules ->
  In r rules ->
  In r acc \/ exists label body, In (label, body) entries /\ parse_entry label body = Ok r.
Proof.
  revert acc. induction entries as [| [l b] entries IH]; intros acc H Hin; simpl in H.
  - injection H as <-. now left.
  - destruct (parse_entry l b) as [r' | e] eqn:E; simpl in H; [| discriminate].
    destruct (IH _ H Hin) as [Hacc | (l' & b' & Hin' & Hp)].
    + apply in_app_or in Hacc. destruct Hacc as [Hacc | [<- | []]]; [now left |].
      right. exists l, b. simpl. auto.
    + right. exists l', b'. simpl. auto.
Qed.

(** The rule loop never reads the globs of an always-remove or merge-state
    rule. *)
Lemma globs_not_read (facts : PrFacts) (key : LabelerKey) (d : Decision)
      (globs globs' : list jsval) :
  patterns_not_required (type key) = true ->
  process_rule facts d (key, globs) = process_rule facts d (key, globs').
Proof.
  unfold patterns_not_required, process_rule, dispatch. intros H.
  destruct (opened_only key && action_not_opened (action facts)); [reflexivity |].
  apply orb_true_iff in H. destruct H as [H | H];
    apply String.eqb_eq in H; rewrite H; reflexivity.
Qed.

(** A rule without patterns never adds its label. *)
Lemma no_globs_no_add (facts : PrFacts) (key : LabelerKey) (d : Decision) :
  type key = LabelType.filesChanged \/ type key = LabelType.title ->
  exists d', process_rule facts d (key, []) = Ok d' /\ fst d' = fst d.
Proof.
  unfold process_rule, dispatch. intros H.
  destruct (opened_only key && action_not_opened (action facts)); [eauto |].
  destruct H as [-> | ->]; simpl; destruct (removable key); simpl; eauto.
Qed.

(** A rule of an unrecognized kind falls through the [switch]. *)
Lemma unrecognized_no_effect (facts : PrFacts) (key : LabelerKey)
      (globs : list jsval) (d : Decision) :
  recognized (type key) = false ->
  process_rule facts d (key, globs) = Ok d.
Proof.
  unfold recognized, process_rule, dispatch. intros H.
  destruct (opened_only key && action_not_opened (action facts)); [reflexivity |].
  repeat (apply orb_false_iff in H; destruct H as [H ?]).
  replace (type key =? LabelType.filesChanged)%string with false.
  replace (type key =? LabelType.alwaysRemove)%string with false.
  replace (type key =? LabelType.mergeState)%string with false.
  replace (type key =? LabelType.title)%string with false.
  reflexivity.
Qed.

(** The parse stops at the first entry that throws. *)
Lemma parse_entries_first_failure (before after : list (string * jsval))
      (l : string) (body : jsval) (e : exn) (acc : LabelGlobs) :
  Forall (fun en => exists r, parse_entry (fst en) (snd en) = Ok r) before ->
  parse_entry l body = Throw e ->
  parse_entries (before ++ (l, body) :: after) acc = Throw e.
Proof.
  intros HF Hfail. revert acc.
  induction HF as [| [l' b'] before [r Hr] _ IH]; intros acc; simpl.
  - now rewrite Hfail.
  - simpl in Hr. rewrite Hr. simpl. apply IH.
Qed.

(** C3, as the code has it: for an entry whose body can be read, a string
    gives the singleton of that string; an array gives the array itself,
    whatever its elements are; any other value gives the placeholder when
    the kind is always-remove or merge-state, and the rule loop never reads
    the globs of such a rule; in the remaining case the entry throws an
    error that names the label.  The parse of every configuration that
    enumerates such an entry then throws, so no partial rule set comes
    out, and it throws that very error, which names the label, when the
    entries enumerated before it all parse. *)
Theorem parse_entry_patterns (label : string) (body ty patterns : jsval) :
  get_field body "type" = Ok ty ->
  get_field body "patterns" = Ok patterns ->
  match patterns with
  | JStr p => exists key, parse_entry label body = Ok (key, [JStr p])
  | JArr globs => exists key, parse_entry label body = Ok (key, globs)
  | _ =>
      if patterns_not_required (keytype_of ty)
      then exists key,
          parse_entry label body = Ok (key, [JStr "not applicable"])
          /\ forall facts d globs,
              process_rule facts d (key, globs)
              = process_rule facts d (key, [JStr "not applicable"])
      else parse_entry label body = Throw (patterns_error label)
           /\ names_label (patterns_error label) label
           /\ (forall configObject,
                  In (label, body) (for_in configObject) ->
                  exists e, getLabelGlobMapFromObject configObject = Throw e)
           /\ (forall configObject before after,
                  for_in configObject = before ++ (label, body) :: after ->
                  Forall (fun en => exists r, parse_entry (fst en) (snd en) = Ok r)
                         before ->
                  getLabelGlobMapFromObject configObject
                  = Throw (patterns_error label))
  end.
Proof.
  intros Hty Hp.
  destruct (get_field_readable body _ _ Hty "removable") as [rm Hrm].
  destruct (get_field_readable body _ _ Hty "opened_only") as [oo Hoo].
  pose proof (parse_entry_unfold label body ty rm oo patterns Hty Hrm Hoo Hp) as E.
  cbv zeta in E.
  destruct patterns; try (eexists; exact E);
    destruct (patterns_not_required (keytype_of ty)) eqn:Hk;
    try (eexists; split; [exact E | intros; now apply globs_not_read]);
    (split; [exact E | split; [apply patterns_error_names_label |]];
     split;
     [ intros configObject Hin; eapply parse_entries_fail; eauto
     | intros configObject before after Hcfg HF;
       unfold getLabelGlobMapFromObject; rewrite Hcfg;
       now apply parse_entries_first_failure ]).
Qed.

(** C4, as the code has it: the kind of a parsed rule is the entry's type
    field whenever that field is a string, recognized or not, and
    files-changed when the field is absent or not a string. *)
Theorem parse_entry_type (label : string) (body ty : jsval)
        (key : LabelerKey) (globs : list jsval) :
  parse_entry label body = Ok (key, globs) ->
  get_field body "type" = Ok ty ->
  type key = match ty with
             | JStr s => s
             | _ => LabelType.filesChanged
             end.
Proof.
  intros H Hty.
  destruct (parse_entry_fields _ _ _ H) as (ty' & rm & oo & patterns & Hty' & Hrm & Hoo & Hp).
  assert (ty' = ty) by congruence. subst ty'.
  rewrite (parse_entry_unfold label body ty rm oo patterns Hty Hrm Hoo Hp) in H.
  cbv zeta in H.
  assert (Hkey : type key = keytype_of ty).
  { destruct patterns; try destruct (patterns_not_required (keytype_of ty));
      try discriminate; injection H as <- _; reflexivity. }
  rewrite Hkey. destruct ty; reflexivity.
Qed.

(** C5, as the code has it: the patterns of a files-changed or title rule
    of a successful parse are the singleton of the string that its entry
    holds, or the array that its entry holds as it is, which may be empty;
    a rule with no pattern is accepted and never adds its label. *)
Theorem parsed_patterns_origin (configObject : jsval) (rules : LabelGlobs)
        (key : LabelerKey) (globs : list jsval) :
  getLabelGlobMapFromObject configObject = Ok rules ->
  In (key, globs) rules ->
  type key = LabelType.filesChanged \/ type key = LabelType.title ->
  (exists body,
      In (label key, body) (for_in configObject)
      /\ ((exists p, get_field body "patterns" = Ok (JStr p) /\ globs = [JStr p])
          \/ get_field body "patterns" = Ok (JArr globs)))
  /\ (globs = [] ->
      forall facts d, exists d',
          process_rule facts d (key, globs) = Ok d' /\ fst d' = fst d).
Proof.
  intros Hparse Hin Hty. split.
  - destruct (parse_entries_In _ _ _ _ Hparse Hin) as [[] | (l & body & Hl & H)].
    destruct (parse_entry_fields _ _ _ H) as (ty & rm & oo & patterns & Hty' & Hrm & Hoo & Hp).
    rewrite (parse_entry_unfold l body ty rm oo patterns Hty' Hrm Hoo Hp) in H.
    cbv zeta in H.
    assert (Hnr : patterns_not_required (type key) = false)
      by (destruct Hty as [-> | ->]; reflexivity).
    exists body.
    destruct patterns;
      try (destruct (patterns_not_required (keytype_of ty)) eqn:Hk; [| discriminate];
           injection H as <- <-; simpl in Hnr; congruence);
      injection H as <- <-; simpl; split; eauto.
  - intros -> facts d. now apply no_globs_no_add.
Qed.

(** C10: an entry whose type is a string outside the four kinds, and whose
    patterns are a string or an array, parses to a rule, and that rule
    contributes nothing, whatever the facts: it leaves both lists as they
    are, and the decision of a rule set is the one of the rule set without
    it. *)
Theorem unrecognized_type_inert (label t : string) (body patterns : jsval) :
  get_field body "type" = Ok (JStr t) ->
  recognized t = false ->
  get_field body "patterns" = Ok patterns ->
  (exists p, patterns = JStr p) \/ (exists l, patterns = JArr l) ->
  exists key globs,
    parse_entry label body = Ok (key, globs)
    /\ (forall facts d, process_rule facts d (key, globs) = Ok d)
    /\ (forall facts before after d,
          process_rules facts (before ++ (key, globs) :: after) d
          = process_rules facts (before ++ after) d).
Proof.
  intros Hty Hrec Hp Hshape.
  destruct (get_field_readable body _ _ Hty "removable") as [rm Hrm].
  destruct (get_field_readable body _ _ Hty "opened_only") as [oo Hoo].
  pose proof (parse_entry_unfold label body _ rm oo patterns Hty Hrm Hoo Hp) as E.
  cbv zeta in E.
  assert (Hinert : forall globs facts d,
             process_rule facts d
               (mkLabelerKey label t (bool_or_false rm) (bool_or_false oo), globs)
             = Ok d)
    by (intros; now apply unrecognized_no_effect).
  destruct Hshape as [[p ->] | [l ->]]; do 2 eexists; (split; [exact E |]);
    (split; [intros; apply Hinert | intros; apply process_rules_drop; apply Hinert]).
Qed.

(** ** The update call *)

(** C8: [run] issues the label replacement exactly when the pull-request
    number is there, the rule loop has completed, and one of
    [labels_to_add] and [labels_to_remove] is not empty; it then replaces
    the labels by the reconciled ones.  When both lists are empty [run]
    does nothing. *)
Theorem run_replaces_iff (i : Invocation) (n : Z) (labels : list string) :
  (In (ReplaceLabels n labels) (run i)
   <-> prNumber i = Some n /\ n <> 0%Z
       /\ exists adds rems,
           labels_decided i = Ok (adds, rems)
           /\ (adds <> [] \/ rems <> [])
           /\ labels = updateLabels (current_labels (facts i)) adds rems)
  /\ (labels_decided i = Ok ([], []) -> run i = []).
Proof.
  unfold run. split.
  - destruct (prNumber i) as [m |];
      [| split; [intros [] | intros [? _]; discriminate]].
    destruct (Z.eqb_spec m 0) as [-> | Hm];
      [split; [intros [] | intros (H & Hn & _); congruence] |].
    destruct (labels_decided i) as [[adds rems] | e].
    + destruct adds as [| a adds]; [destruct rems as [| r rems] |]; simpl.
      * split; [intros [] | intros (_ & _ & ? & ? & H & [? | ?] & _)]; congruence.
      * split.
        -- intros [H | []]. injection H as -> <-. repeat split; try assumption.
           exists [], (r :: rems). repeat split. right. discriminate.
        -- intros (Hn & _ & ? & ? & H & _ & ->). injection H as <- <-.
           left. congruence.
      * split.
        -- intros [H | []]. injection H as -> <-. repeat split; try assumption.
           exists (a :: adds), rems. repeat split. left. discriminate.
        -- intros (Hn & _ & ? & ? & H & _ & ->). injection H as <- <-.
           left. congruence.
    + simpl. split; [intros [? | []]; discriminate |].
      intros (_ & _ & ? & ? & ? & _). discriminate.
  - intros ->. destruct (prNumber i) as [m |]; [| reflexivity].
    destruct (m =? 0)%Z; reflexivity.
Qed.

(** * Further properties *)

(** ** More on the rule parser *)

Lemma parse_entry_label (l : string) (body : jsval) (r : LabelerKey * list jsval) :
  parse_entry l body = Ok r -> label (fst r) = l.
Proof.
  intros H.
  destruct (parse_entry_fields _ _ _ H) as (ty & rm & oo & patterns & Hty & Hrm & Hoo & Hp).
  rewrite (parse_entry_unfold l body ty rm oo patterns Hty Hrm Hoo Hp) in H.
  cbv zeta in H.
  destruct patterns; try destruct (patterns_not_required (keytype_of ty));
    try discriminate; injection H as <-; reflexivity.
Qed.

(** A successful parse has parsed every entry, in order. *)
Lemma parse_entries_Forall2 (entries : list (string * jsval)) (acc rules : LabelGlobs) :
  parse_entries entries acc = Ok rules ->
  exists parsed,
    rules = acc ++ parsed
    /\ Forall2 (fun e r => parse_entry (fst e) (snd e) = Ok r) entries parsed.
Proof.
  revert acc. induction entries as [| [l b] entries IH]; intros acc H; simpl in H.
  - injection H as <-. exists []. now rewrite app_nil_r.
  - destruct (parse_entry l b) as [r | e] eqn:E; simpl in H; [| discriminate].
    destruct (IH _ H) as (parsed & -> & HF).
    exists (r :: parsed). rewrite <- app_assoc. split; [reflexivity |].
    constructor; assumption.
Qed.

(** X1: a successful parse gives one rule for each key that the
    configuration enumerates, in the order of enumeration, and each rule
    carries its key as label. *)
Theorem parsed_labels_in_order (configObject : jsval) (rules : LabelGlobs) :
  getLabelGlobMapFromObject configObject = Ok rules ->
  map (fun r => label (fst r)) rules = map fst (for_in configObject).
Proof.
  unfold getLabelGlobMapFromObject. intros H.
  destruct (parse_entries_Forall2 _ _ _ H) as (parsed & -> & HF). simpl.
  clear H. induction HF as [| [l b] r entries parsed Hr _ IH]; simpl; [reflexivity |].
  f_equal; [| exact IH]. now apply parse_entry_label in Hr.
Qed.

(** X2: when the entries before a failing entry all parse, the parse of
    the configuration throws the exception of that entry: the error names
    the first offending label, and nothing after it is looked at. *)
Theorem parse_throws_first_failure (configObject : jsval)
        (before after : list (string * jsval)) (l : string) (body : jsval) (e : exn) :
  for_in configObject = before ++ (l, body) :: after ->
  Forall (fun en => exists r, parse_entry (fst en) (snd en) = Ok r) before ->
  parse_entry l body = Throw e ->
  getLabelGlobMapFromObject configObject = Throw e.
Proof.
  unfold getLabelGlobMapFromObject. intros -> HF Hfail.
  now apply parse_entries_first_failure.
Qed.

(** X3: the flags of a parsed rule are set only by booleans: [removable]
    and [opened_only] are the entry's fields when these are booleans, and
    false for any other value, a string such as "true" included. *)
Theorem parse_entry_flags (l : string) (body rm oo : jsval)
        (key : LabelerKey) (globs : list jsval) :
  parse_entry l body = Ok (key, globs) ->
  get_field body "removable" = Ok rm ->
  get_field body "opened_only" = Ok oo ->
  removable key = match rm with JBool b => b | _ => false end
  /\ opened_only key = match oo with JBool b => b | _ => false end.
Proof.
  intros H Hrm Hoo.
  destruct (parse_entry_fields _ _ _ H) as (ty & rm' & oo' & patterns & Hty & Hrm' & Hoo' & Hp).
  assert (rm' = rm) by congruence. assert (oo' = oo) by congruence. subst rm' oo'.
  rewrite (parse_entry_unfold l body ty rm oo patterns Hty Hrm Hoo Hp) in H.
  cbv zeta in H.
  destruct patterns; try destruct (patterns_not_required (keytype_of ty));
    try discriminate; injection H as <- _; split; reflexivity.
Qed.

(** X4: a configuration that is a string, or a sequence that starts with
    a string, is enumerated by index, so its parse throws the error that
    names the label "0"; a sequence that starts with [null] throws a
    [TypeError]. *)
Theorem parse_sequence_config :
  (forall c s, getLabelGlobMapFromObject (JStr (String c s))
               = Throw (patterns_error "0"))
  /\ (forall p rest, getLabelGlobMapFromObject (JArr (JStr p :: rest))
                    = Throw (patterns_error "0"))
  /\ (forall rest, getLabelGlobMapFromObject (JArr (JNull :: rest))
                  = Throw TypeError).
Proof.
  repeat split; intros; reflexivity.
Qed.

(** X5: an entry whose body is not a mapping never parses: [null] and
    [undefined] throw a [TypeError], and a string, a number, a boolean or a
    sequence (so the form [label: glob] or [label: [glob, ...]]) throws the
    error that names the label. *)
Theorem parse_entry_not_a_mapping (l : string) (body : jsval) :
  match body with
  | JObj _ => True
  | JNull | JUndefined => parse_entry l body = Throw TypeError
  | _ => parse_entry l body = Throw (patterns_error l)
  end.
Proof.
  destruct body; reflexivity || exact I.
Qed.

(** ** More on the pattern matcher *)

Lemma checkGlobs_app (files : list string) (globs1 globs2 : list jsval) :
  checkGlobs files (globs1 ++ globs2)
  = (b <- checkGlobs files globs1 ;;
     if b then Ok true else checkGlobs files globs2).
Proof.
  induction globs1 as [| g globs1 IH]; simpl; [reflexivity |].
  destruct (Minimatch g) as [m | e]; simpl; [| reflexivity].
  destruct (some_file_matches m files); [reflexivity | exact IH].
Qed.

(** X6: a glob that the library refuses throws only when it is reached:
    after globs that the library accepts, [checkGlobs] answers true when
    one of these matches, and throws the library's exception otherwise;
    what comes after the refused glob plays no part. *)
Theorem checkGlobs_refused_glob (files : list string) (before after : list jsval)
        (bad : jsval) (e : exn) :
  Forall compiles before ->
  Minimatch bad = Throw e ->
  exists b,
    checkGlobs files before = Ok b
    /\ checkGlobs files (before ++ bad :: after) = if b then Ok true else Throw e.
Proof.
  intros Hc Hbad.
  destruct (checkGlobs_total files before Hc) as [b Hb].
  exists b. split; [exact Hb |].
  rewrite checkGlobs_app, Hb. simpl. rewrite Hbad. reflexivity.
Qed.

(** X7: matching is monotone: when the library accepts all the globs, a
    match stays a match after more candidates or more globs are given, in
    any order. *)
Theorem checkGlobs_monotone (files files' : list string) (globs globs' : list jsval) :
  Forall compiles globs' ->
  incl files files' ->
  incl globs globs' ->
  checkGlobs files globs = Ok true ->
  checkGlobs files' globs' = Ok true.
Proof.
  intros Hc Hf Hg H.
  assert (Hc0 : Forall compiles globs).
  { rewrite Forall_forall in *. intros g Hin. apply Hc, Hg, Hin. }
  apply checkGlobs_true in H; [| exact Hc0].
  destruct H as (g & f & Hgin & Hfin & Hm).
  apply checkGlobs_true; [exact Hc |].
  exists g, f. auto.
Qed.

(** ** More on the rule evaluator *)

Lemma process_rule_shape (facts : PrFacts) (d d' : Decision)
      (key : LabelerKey) (globs : list jsval) :
  process_rule facts d (key, globs) = Ok d' ->
  d' = d \/ d' = push_add d (label key) \/ d' = push_remove d (label key).
Proof.
  unfold process_rule, dispatch.
  destruct (opened_only key && action_not_opened (action facts));
    [intros H; injection H as <-; auto |].
  destruct (type key =? LabelType.filesChanged)%string.
  { destruct (checkGlobs (changedFiles facts) globs) as [[|] | e]; simpl;
      [| destruct (removable key) |]; intros H; try discriminate;
      injection H as <-; auto. }
  destruct (type key =? LabelType.alwaysRemove)%string;
    [intros H; injection H as <-; auto |].
  destruct (type key =? LabelType.mergeState)%string.
  { destruct (not_mergeable (mergeable facts)); [| destruct (removable key)];
      intros H; injection H as <-; auto. }
  destruct (type key =? LabelType.title)%string.
  { destruct (checkGlobs [prTitle facts] globs) as [[|] | e]; simpl;
      [| destruct (removable key) |]; intros H; try discriminate;
      injection H as <-; auto. }
  intros H; injection H as <-; auto.
Qed.

Lemma process_rules_invariant (facts : PrFacts) (rules : LabelGlobs) (d d' : Decision) :
  process_rules facts rules d = Ok d' ->
  (forall l, In l (fst d') \/ In l (snd d') ->
             (In l (fst d) \/ In l (snd d))
             \/ exists key globs, In (key, globs) rules /\ label key = l)
  /\ List.length (fst d') + List.length (snd d')
     <= List.length (fst d) + List.length (snd d) + List.length rules.
Proof.
  revert d. induction rules as [| [key globs] rules IH]; intros d H.
  - injection H as <-. split; [auto | simpl; lia].
  - cbn [process_rules] in H.
    destruct (process_rule facts d (key, globs)) as [d1 | e] eqn:E;
      cbn [bind] in H; [| discriminate].
    destruct (IH _ H) as [Hin Hlen]. apply process_rule_shape in E.
    split.
    + intros l Hl. destruct (Hin l Hl) as [Hd1 | (k & g & Hk & Hlab)].
      * destruct E as [-> | [-> | ->]]; [now left | |];
          unfold push_add, push_remove in Hd1; simpl in Hd1;
          rewrite in_app_iff in Hd1; simpl in Hd1.
        -- destruct Hd1 as [[? | [<- | []]] | ?]; auto.
           right. exists key, globs. simpl. auto.
        -- destruct Hd1 as [? | [? | [<- | []]]]; auto.
           right. exists key, globs. simpl. auto.
      * right. exists k, g. simpl. auto.
    + simpl. destruct E as [-> | [-> | ->]];
        unfold push_add, push_remove in Hlen; simpl in Hlen;
        rewrite ?length_app in Hlen; simpl in Hlen; lia.
Qed.

(** X8: the decision names only labels of the rule set, and each rule
    gives at most one label to one of the two lists: together the lists
    are no longer than the rule set. *)
Theorem decision_from_rules (facts : PrFacts) (rules : LabelGlobs)
        (adds rems : list string) :
  decide_labels facts rules = Ok (adds, rems) ->
  (forall l, In l adds \/ In l rems ->
             exists key globs, In (key, globs) rules /\ label key = l)
  /\ List.length adds + List.length rems <= List.length rules.
Proof.
  unfold decide_labels. intros H.
  destruct (process_rules_invariant _ _ _ _ H) as [Hin Hlen]. simpl in *.
  split; [| exact Hlen].
  intros l Hl. destruct (Hin l Hl) as [[[] | []] | Hrule]. exact Hrule.
Qed.

(** ** More on the label reconciler *)

Lemma includes_app (s t : list string) (x : string) :
  includes (s ++ t) x = includes s x || includes t x.
Proof.
  unfold includes. apply existsb_app.
Qed.

(** Adding to a set that extends [s] adds what is not in [s] to the
    extension. *)
Lemma fold_Set_add_split (a s t : list string) :
  fold_left Set_add a (s ++ t)
  = s ++ fold_left Set_add (filter (fun x => negb (includes s x)) a) t.
Proof.
  revert t. induction a as [| y a IH]; intros t; simpl; [reflexivity |].
  unfold Set_add at 2. fold (includes (s ++ t) y). rewrite includes_app.
  destruct (includes s y) eqn:Es; simpl.
  - apply IH.
  - unfold Set_add at 3. fold (includes t y).
    destruct (includes t y); [apply IH |].
    rewrite <- app_assoc. apply IH.
Qed.

Lemma includes_new_Set (l : list string) (x : string) :
  includes (new_Set l) x = includes l x.
Proof.
  destruct (includes l x) eqn:E.
  - apply includes_In, new_Set_In, includes_In, E.
  - apply includes_false. rewrite new_Set_In. now apply includes_false.
Qed.

Lemma new_Set_app (c a : list string) :
  new_Set (c ++ a)
  = new_Set c ++ new_Set (filter (fun x => negb (includes c x)) a).
Proof.
  unfold new_Set at 1. rewrite fold_left_app. fold (new_Set c).
  rewrite <- (app_nil_r (new_Set c)) at 1.
  rewrite fold_Set_add_split. f_equal.
  rewrite (filter_ext (fun x => negb (includes (new_Set c) x))
                      (fun x => negb (includes c x)))
    by (intros x; now rewrite includes_new_Set).
  reflexivity.
Qed.

Lemma filter_all {A : Type} (f : A -> bool) (l : list A) :
  (forall x, In x l -> f x = true) -> filter f l = l.
Proof.
  induction l as [| x l IH]; intros H; simpl; [reflexivity |].
  rewrite (H x (or_introl eq_refl)). f_equal. apply IH. intros y Hy.
  apply H. now right.
Qed.

Lemma filter_none {A : Type} (f : A -> bool) (l : list A) :
  (forall x, In x l -> f x = false) -> filter f l = [].
Proof.
  induction l as [| x l IH]; intros H; simpl; [reflexivity |].
  rewrite (H x (or_introl eq_refl)). apply IH. intros y Hy.
  apply H. now right.
Qed.

Lemma updateLabels_split (c a r : list string) :
  updateLabels c a r
  = filter (fun p => negb (includes r p)) (new_Set c)
    ++ filter (fun p => negb (includes r p))
              (new_Set (filter (fun x => negb (includes c x)) a)).
Proof.
  unfold updateLabels. now rewrite new_Set_app, filter_app.
Qed.

(** X9: the labels handed to the replacement call come in first-seen
    order: the current labels in their order, each once, then the added
    labels that are not current, each once in the order of their first
    addition; the removed labels are left out of both parts. *)
Theorem updateLabels_first_seen (c a r : list string) :
  updateLabels c a r
  = filter (fun p => negb (includes r p)) (new_Set c)
    ++ filter (fun p => negb (includes r p))
              (new_Set (filter (fun x => negb (includes c x)) a)).
Proof.
  apply updateLabels_split.
Qed.

(** X10: when the current labels hold no duplicate, every added label is
    current already and no removed label is current, the labels handed to
    the replacement call are the current labels as they are. *)
Theorem updateLabels_nothing_new (c a r : list string) :
  NoDup c ->
  (forall x, In x a -> In x c) ->
  (forall x, In x r -> ~ In x c) ->
  updateLabels c a r = c.
Proof.
  intros Hc Ha Hr. rewrite updateLabels_split.
  rewrite (new_Set_NoDup_id c Hc).
  rewrite (filter_none _ a); [simpl; rewrite app_nil_r |].
  - apply filter_all. intros x Hx. apply negb_true_iff, includes_false.
    intros Hxr. exact (Hr x Hxr Hx).
  - intros x Hx. apply negb_false_iff, includes_In, Ha, Hx.
Qed.

(** X11: one reconciliation is the addition followed by the removal, and
    two removals in a row are one removal of both lists. *)
Theorem updateLabels_in_steps (c a r r' : list string) :
  updateLabels c a r = updateLabels (updateLabels c a []) [] r
  /\ updateLabels (updateLabels c a r) [] r' = updateLabels c a (r ++ r').
Proof.
  assert (Hid : forall l, NoDup l -> new_Set (l ++ []) = l)
    by (intros l Hl; rewrite app_nil_r; now apply new_Set_NoDup_id).
  split.
  - unfold updateLabels at 2. rewrite Hid by apply updateLabels_NoDup.
    unfold updateLabels. simpl.
    rewrite (filter_all (fun _ => true)); reflexivity.
  - unfold updateLabels at 1. rewrite Hid by apply updateLabels_NoDup.
    unfold updateLabels.
    induction (new_Set (c ++ a)) as [| x l IH]; simpl; [reflexivity |].
    rewrite includes_app. destruct (includes r x); simpl; [exact IH |].
    destruct (includes r' x); simpl; [exact IH | now rewrite IH].
Qed.

(** ** More on [run] *)

Lemma run_replace_inv (i : Invocation) (n : Z) (labels : list string) :
  In (ReplaceLabels n labels) (run i) ->
  exists adds rems,
    labels_decided i = Ok (adds, rems)
    /\ labels = updateLabels (current_labels (facts i)) adds rems.
Proof.
  unfold run. destruct (prNumber i) as [m |]; [| intros []].
  destruct (m =? 0)%Z; [intros [] |].
  destruct (labels_decided i) as [[adds rems] | e].
  - destruct ((0 <? List.length adds)%nat || (0 <? List.length rems)%nat);
      [| intros []].
    intros [H | []]. injection H as _ <-. eauto.
  - intros [H | []]. discriminate.
Qed.

Lemma labels_decided_inv (i : Invocation) (d : Decision) :
  labels_decided i = Ok d ->
  exists rules,
    getLabelGlobMapFromObject (configObject i) = Ok rules
    /\ decide_labels (facts i) rules = Ok d.
Proof.
  unfold labels_decided.
  destruct (getLabelGlobMapFromObject (configObject i)) as [rules | e]; simpl;
    [eauto | discriminate].
Qed.

(** The rule loop only appends to the two lists. *)
Lemma process_rules_keeps (facts : PrFacts) (rules : LabelGlobs) (d d' : Decision)
      (l : string) :
  process_rules facts rules d = Ok d' ->
  (In l (fst d) -> In l (fst d')) /\ (In l (snd d) -> In l (snd d')).
Proof.
  revert d. induction rules as [| [key globs] rules IH]; intros d H.
  - injection H as <-. auto.
  - cbn [process_rules] in H.
    destruct (process_rule facts d (key, globs)) as [d1 | e] eqn:E;
      cbn [bind] in H; [| discriminate].
    destruct (IH _ H) as [Ha Hr]. apply process_rule_shape in E.
    destruct E as [-> | [-> | ->]]; split; intros Hin;
      try (apply Ha); try (apply Hr); simpl; rewrite ?in_app_iff; auto.
Qed.

(** An always-remove rule that is not skipped puts its label among the
    removals. *)
Lemma process_rules_alwaysRemove (facts : PrFacts) (rules : LabelGlobs)
      (d d' : Decision) (key : LabelerKey) (globs : list jsval) :
  process_rules facts rules d = Ok d' ->
  In (key, globs) rules ->
  type key = LabelType.alwaysRemove ->
  opened_only key && action_not_opened (action facts) = false ->
  In (label key) (snd d').
Proof.
  intros H Hin Hty Hskip. revert d H.
  induction rules as [| rule rules IH]; intros d H; [destruct Hin |].
  cbn [process_rules] in H.
  destruct (process_rule facts d rule) as [d1 | e] eqn:E;
    cbn [bind] in H; [| discriminate].
  destruct Hin as [-> | Hin]; [| now apply (IH Hin d1)].
  unfold process_rule in E. rewrite Hskip in E. unfold dispatch in E.
  rewrite Hty in E. simpl in E. injection E as <-.
  apply (process_rules_keeps _ _ _ _ (label key) H).
  simpl. rewrite in_app_iff. simpl. auto.
Qed.

(** X12: one entry that fails to parse, anywhere in the configuration,
    keeps [run] from replacing any label, whatever the other entries say;
    with the pull-request number there, all that [run] then does is to
    report a failure. *)
Theorem run_bad_entry (i : Invocation) (l : string) (body : jsval) (e0 : exn) :
  In (l, body) (for_in (configObject i)) ->
  parse_entry l body = Throw e0 ->
  (forall n labels, ~ In (ReplaceLabels n labels) (run i))
  /\ (forall n, prNumber i = Some n -> n <> 0%Z ->
                exists e, run i = [SetFailed e]).
Proof.
  intros Hin Hfail.
  destruct (parse_entries_fail _ _ _ _ [] Hin Hfail) as [e He].
  assert (Hd : labels_decided i = Throw e).
  { unfold labels_decided, getLabelGlobMapFromObject. now rewrite He. }
  unfold run. rewrite Hd. split.
  - intros n labels. destruct (prNumber i) as [m |]; [| intros []].
    destruct (m =? 0)%Z; [intros [] |]. intros [H | []]. discriminate.
  - intros n -> Hn. destruct (Z.eqb_spec n 0) as [-> | _]; [congruence |].
    now exists e.
Qed.

(** X13: a configuration that enumerates nothing (an empty file, a
    number, a boolean, an empty mapping or sequence) gives no rule, and
    [run] then neither replaces labels nor reports a failure. *)
Theorem run_without_rules (i : Invocation) :
  for_in (configObject i) = [] ->
  getLabelGlobMapFromObject (configObject i) = Ok [] /\ run i = [].
Proof.
  intros H. unfold run, labels_decided, getLabelGlobMapFromObject. rewrite H.
  split; [reflexivity |].
  destruct (prNumber i) as [m |]; [| reflexivity].
  destruct (m =? 0)%Z; reflexivity.
Qed.

(** X14: the label of an always-remove rule that is not skipped is never
    among the labels that [run] puts on the pull request, whether it was
    current or another rule added it. *)
Theorem run_alwaysRemove (i : Invocation) (n : Z) (labels : list string)
        (rules : LabelGlobs) (key : LabelerKey) (globs : list jsval) :
  In (ReplaceLabels n labels) (run i) ->
  getLabelGlobMapFromObject (configObject i) = Ok rules ->
  In (key, globs) rules ->
  type key = LabelType.alwaysRemove ->
  opened_only key && action_not_opened (action (facts i)) = false ->
  ~ In (label key) labels.
Proof.
  intros Hrun Hparse Hin Hty Hskip.
  destruct (run_replace_inv _ _ _ Hrun) as (adds & rems & Hd & ->).
  destruct (labels_decided_inv _ _ Hd) as (rules' & Hparse' & Hdec).
  assert (rules' = rules) by congruence. subst rules'.
  rewrite updateLabels_In. intros [_ Hnot]. apply Hnot.
  exact (process_rules_alwaysRemove _ _ _ _ _ _ Hdec Hin Hty Hskip).
Qed.

(** X15: [run] touches only the labels of its rules: a label on the pull
    request afterwards was current or is the label of a rule, and a label
    that no rule carries is there afterwards exactly when it was current. *)
Theorem run_touches_rule_labels (i : Invocation) (n : Z) (labels : list string)
        (rules : LabelGlobs) :
  In (ReplaceLabels n labels) (run i) ->
  getLabelGlobMapFromObject (configObject i) = Ok rules ->
  (forall x, In x labels ->
             In x (current_labels (facts i))
             \/ exists key globs, In (key, globs) rules /\ label key = x)
  /\ (forall x, (forall key globs, In (key, globs) rules -> label key <> x) ->
                (In x labels <-> In x (current_labels (facts i)))).
Proof.
  intros Hrun Hparse.
  destruct (run_replace_inv _ _ _ Hrun) as (adds & rems & Hd & ->).
  destruct (labels_decided_inv _ _ Hd) as (rules' & Hparse' & Hdec).
  assert (rules' = rules) by congruence. subst rules'.
  destruct (process_rules_invariant _ _ _ _ Hdec) as [Hfrom _]. simpl in Hfrom.
  assert (Hrule : forall x, In x adds \/ In x rems ->
                            exists key globs, In (key, globs) rules /\ label key = x).
  { intros x Hx. destruct (Hfrom x Hx) as [[[] | []] | H]. exact H. }
  split.
  - intros x Hx. apply updateLabels_In in Hx. destruct Hx as [[Hc | Ha] _]; auto.
  - intros x Hno. rewrite updateLabels_In.
    assert (Hn : ~ (In x adds \/ In x rems)).
    { intros Hx. destruct (Hrule x Hx) as (k & g & Hk & Hl). exact (Hno k g Hk Hl). }
    tauto.
Qed.

(** ** The two revisions *)

Lemma Main_checkGlobs_eq (files : list string) (globs : list jsval) :
  Main.checkGlobs Minimatch files globs = checkGlobs files globs.
Proof.
  induction globs as [| g globs IH]; simpl; [reflexivity |].
  destruct (Minimatch g) as [m | e]; simpl; [| reflexivity].
  replace (Main.some_file_matches m files) with (some_file_matches m files)
    by (induction files as [| f files IHf]; simpl; [| rewrite IHf]; reflexivity).
  now rewrite IH.
Qed.

Lemma Main_parse_entry_unfold (l : string) (body ty patterns : jsval) :
  get_field body "type" = Ok ty ->
  get_field body "patterns" = Ok patterns ->
  Main.parse_entry l body =
  match patterns with
  | JStr p => Ok (Main.mkLabelerKey l (keytype_of ty), [JStr p])
  | JArr globs => Ok (Main.mkLabelerKey l (keytype_of ty), globs)
  | _ => Throw (patterns_error l)
  end.
Proof.
  intros Hty Hp. unfold Main.parse_entry. rewrite Hty, Hp. reflexivity.
Qed.

(** What the earlier parser makes of an entry that the later parser
    accepts. *)
Lemma parse_entry_earlier (l : string) (body : jsval) (key : LabelerKey)
      (globs : list jsval) :
  parse_entry l body = Ok (key, globs) ->
  Main.parse_entry l body = Ok (earlier_rule (key, globs))
  \/ (patterns_not_required (type key) = true
      /\ globs = [JStr "not applicable"]
      /\ Main.parse_entry l body = Throw (patterns_error l)).
Proof.
  intros H.
  destruct (parse_entry_fields _ _ _ H) as (ty & rm & oo & patterns & Hty & Hrm & Hoo & Hp).
  rewrite (parse_entry_unfold l body ty rm oo patterns Hty Hrm Hoo Hp) in H.
  rewrite (Main_parse_entry_unfold l body ty patterns Hty Hp).
  cbv zeta in H.
  destruct patterns;
    try (destruct (patterns_not_required (keytype_of ty)) eqn:Hk; [| discriminate];
         injection H as <- <-; right; auto);
    injection H as <- <-; left; reflexivity.
Qed.

Lemma parse_entry_later (l : string) (body : jsval)
      (r : Main.LabelerKey * list jsval) :
  Main.parse_entry l body = Ok r ->
  exists r', parse_entry l body = Ok r' /\ earlier_rule r' = r.
Proof.
  intros H.
  assert (Hf : exists ty patterns,
             get_field body "type" = Ok ty /\ get_field body "patterns" = Ok patterns)
    by (destruct body; simpl in H; try discriminate; simpl; eauto).
  destruct Hf as (ty & patterns & Hty & Hp).
  destruct (get_field_readable body _ _ Hty "removable") as [rm Hrm].
  destruct (get_field_readable body _ _ Hty "opened_only") as [oo Hoo].
  rewrite (parse_entry_unfold l body ty rm oo patterns Hty Hrm Hoo Hp).
  rewrite (Main_parse_entry_unfold l body ty patterns Hty Hp) in H.
  cbv zeta.
  destruct patterns; try discriminate; injection H as <-; eexists; split;
    reflexivity.
Qed.

Lemma parse_entries_later (entries : list (string * jsval))
      (acc0 rs : Main.LabelGlobs) (acc : LabelGlobs) :
  Main.parse_entries entries acc0 = Ok rs ->
  map earlier_rule acc = acc0 ->
  exists rules, parse_entries entries acc = Ok rules /\ map earlier_rule rules = rs.
Proof.
  revert acc0 acc. induction entries as [| [l b] entries IH]; intros acc0 acc H Hacc.
  - injection H as <-. exists acc. auto.
  - cbn [Main.parse_entries] in H. cbn [parse_entries].
    destruct (Main.parse_entry l b) as [r | e] eqn:E; cbn [bind] in H; [| discriminate].
    destruct (parse_entry_later _ _ _ E) as (r' & Hr' & Heq).
    rewrite Hr'. cbn [bind]. apply (IH _ _ H).
    rewrite map_app. simpl. now rewrite Hacc, Heq.
Qed.

Lemma parse_entries_earlier (facts : PrFacts) (entries : list (string * jsval))
      (acc rules : LabelGlobs) :
  parse_entries entries acc = Ok rules ->
  Forall (evaluated_by_both facts) rules ->
  Main.parse_entries entries (map earlier_rule acc) = Ok (map earlier_rule rules).
Proof.
  revert acc. induction entries as [| [l b] entries IH]; intros acc H HF.
  - injection H as <-. reflexivity.
  - cbn [Main.parse_entries]. cbn [parse_entries] in H.
    destruct (parse_entry l b) as [[key globs] | e] eqn:E; cbn [bind] in H;
      [| discriminate].
    destruct (parse_entry_earlier _ _ _ _ E) as [Hm | (Hnr & _ & _)].
    + rewrite Hm. cbn [bind].
      specialize (IH _ H HF). rewrite map_app in IH. exact IH.
    + destruct (parse_entries_Forall2 _ _ _ H) as (parsed & -> & _).
      rewrite Forall_forall in HF.
      destruct (HF (key, globs)) as [_ Hno];
        [rewrite !in_app_iff; simpl; auto | simpl in Hno; congruence].
Qed.

(** On rules that both revisions evaluate, the later rule loop adds what
    the earlier one adds, and throws when it throws. *)
Lemma process_rules_earlier (facts : PrFacts) (rules : LabelGlobs) (d : Decision) :
  Forall (evaluated_by_both facts) rules ->
  Main.process_rules Minimatch (changedFiles facts) (prTitle facts)
                     (map earlier_rule rules) (fst d)
  = (d' <- process_rules facts rules d ;; Ok (fst d')).
Proof.
  intros HF. revert d.
  induction HF as [| [key globs] rules [Hskip Hnr] _ IH]; intros d; [reflexivity |].
  cbn [map Main.process_rules process_rules].
  assert (Hstep : Main.process_rule Minimatch (changedFiles facts) (prTitle facts)
                    (fst d) (earlier_rule (key, globs))
                  = (d1 <- process_rule facts d (key, globs) ;; Ok (fst d1))).
  { simpl in Hskip, Hnr. unfold patterns_not_required in Hnr.
    apply orb_false_iff in Hnr. destruct Hnr as [Har Hms].
    unfold process_rule, Main.process_rule, earlier_rule, dispatch.
    cbn [fst snd Main.type Main.label].
    rewrite Hskip, Har, Hms.
    rewrite (Main_checkGlobs_eq (changedFiles facts)),
      (Main_checkGlobs_eq [prTitle facts]).
    change (type key =? "filesChanged")%string
      with (type key =? LabelType.filesChanged)%string.
    change (type key =? "title")%string with (type key =? LabelType.title)%string.
    destruct (type key =? LabelType.filesChanged)%string.
    - destruct (checkGlobs (changedFiles facts) globs) as [[|] | e]; simpl;
        [| destruct (removable key) |]; reflexivity.
    - destruct (type key =? LabelType.title)%string; [| reflexivity].
      destruct (checkGlobs [prTitle facts] globs) as [[|] | e]; simpl;
        [| destruct (removable key) |]; reflexivity. }
  rewrite Hstep.
  destruct (process_rule facts d (key, globs)) as [d1 | e]; cbn [bind];
    [apply IH | reflexivity].
Qed.

(** X16: a configuration that the earlier revision accepts is accepted by
    the later one, with the same labels, kinds and globs, in the same
    order. *)
Theorem earlier_config_still_parses (configObject : jsval) (rs : Main.LabelGlobs) :
  Main.getLabelGlobMapFromObject configObject = Ok rs ->
  exists rules,
    getLabelGlobMapFromObject configObject = Ok rules
    /\ map earlier_rule rules = rs.
Proof.
  intros H. now apply (parse_entries_later _ [] rs []).
Qed.

(** X17: an entry that the later revision accepts is either accepted by
    the earlier one, with the same label, kind and globs, or it is an
    always-remove or merge-state entry without usable patterns, which the
    earlier revision rejects with the error that names the label. *)
Theorem later_entry_in_earlier_revision (l : string) (body : jsval)
        (key : LabelerKey) (globs : list jsval) :
  parse_entry l body = Ok (key, globs) ->
  Main.parse_entry l body = Ok (earlier_rule (key, globs))
  \/ (patterns_not_required (type key) = true
      /\ globs = [JStr "not applicable"]
      /\ Main.parse_entry l body = Throw (patterns_error l)).
Proof.
  apply parse_entry_earlier.
Qed.

(** X18: when every rule of the configuration passes the opened-only check
    and none is an always-remove or merge-state rule, the labels that the
    earlier revision decides to add are the [labels_to_add] of the later
    revision, and the two revisions throw the same exceptions. *)
Theorem revisions_add_the_same (i : Invocation) (rules : LabelGlobs) :
  getLabelGlobMapFromObject (configObject i) = Ok rules ->
  Forall (evaluated_by_both (facts i)) rules ->
  Main.labels_decided Minimatch (earlier_invocation i)
  = (d <- labels_decided i ;; Ok (fst d)).
Proof.
  intros Hparse HF.
  pose proof (parse_entries_earlier (facts i) _ [] rules Hparse HF) as Hm.
  cbn [map] in Hm.
  unfold Main.labels_decided, labels_decided, earlier_invocation,
    Main.getLabelGlobMapFromObject.
  cbn [Main.configObject Main.changedFiles Main.prTitle].
  rewrite Hm, Hparse. cbn [bind]. unfold decide_labels.
  apply (process_rules_earlier (facts i) rules ([], []) HF).
Qed.

Lemma Main_process_rules_invariant (files : list string) (title : string)
      (rules : Main.LabelGlobs) (labels labels' : list string) :
  Main.process_rules Minimatch files title rules labels = Ok labels' ->
  forall l, In l labels' ->
            In l labels
            \/ exists key globs,
                In (key, globs) rules /\ Main.label key = l
                /\ (Main.type key = "filesChanged" \/ Main.type key = "title").
Proof.
  revert labels. induction rules as [| [key globs] rules IH]; intros labels H l Hl.
  - injection H as <-. auto.
  - cbn [Main.process_rules] in H.
    destruct (Main.process_rule Minimatch files title labels (key, globs))
      as [labels1 | e] eqn:E; cbn [bind] in H; [| discriminate].
    destruct (IH _ H l Hl) as [Hin | (k & g & Hk & Hlab & Hty)];
      [| right; exists k, g; simpl; auto].
    unfold Main.process_rule in E.
    destruct (String.eqb_spec (Main.type key) "filesChanged") as [Hfc | _].
    + destruct (Main.checkGlobs Minimatch files globs) as [[|] | e]; simpl in E;
        try discriminate; injection E as <-; [| now left].
      apply in_app_or in Hin. destruct Hin as [Hin | [<- | []]]; [now left |].
      right. exists key, globs. simpl. auto.
    + destruct (String.eqb_spec (Main.type key) "title") as [Ht | _].
      * destruct (Main.checkGlobs Minimatch [title] globs) as [[|] | e]; simpl in E;
          try discriminate; injection E as <-; [| now left].
        apply in_app_or in Hin. destruct Hin as [Hin | [<- | []]]; [now left |].
        right. exists key, globs. simpl. auto.
      * injection E as <-. now left.
Qed.

(** X19: the earlier revision calls [addLabels] only with a list that is
    not empty, which is the list its rule loop decided, and every label of
    it is the label of a files-changed or title rule of the
    configuration. *)
Theorem earlier_run_adds (i : Main.Invocation) (n : Z) (labels : list string) :
  In (Main.AddLabels n labels) (Main.run Minimatch i) ->
  labels <> []
  /\ Main.labels_decided Minimatch i = Ok labels
  /\ exists rs,
      Main.getLabelGlobMapFromObject (Main.configObject i) = Ok rs
      /\ forall l, In l labels ->
                   exists key globs,
                     In (key, globs) rs /\ Main.label key = l
                     /\ (Main.type key = "filesChanged" \/ Main.type key = "title").
Proof.
  unfold Main.run. destruct (Main.prNumber i) as [m |]; [| intros []].
  destruct (m =? 0)%Z; [intros [] |].
  destruct (Main.labels_decided Minimatch i) as [ls | e] eqn:E;
    [| intros [H | []]; discriminate].
  destruct ls as [| x ls]; [intros [] |]. simpl.
  intros [H | []]. injection H as _ <-.
  split; [discriminate |]. split; [reflexivity |].
  unfold Main.labels_decided in E.
  destruct (Main.getLabelGlobMapFromObject (Main.configObject i)) as [rs | e];
    cbn [bind] in E; [| discriminate].
  exists rs. split; [reflexivity |].
  intros l Hl.
  destruct (Main_process_rules_invariant _ _ _ _ _ E l Hl) as [[] | H]. exact H.
Qed.

End Labeler.

(** ** The definitions at work *)

Example run_sample :
  run exact_Minimatch (mkInvocation (Some 7%Z) sample_facts sample_config)
  = [ReplaceLabels 7%Z []].
Proof. reflexivity. Qed.

Example run_without_pull_request :
  run exact_Minimatch (mkInvocation None sample_facts sample_config) = [].
Proof. reflexivity. Qed.

Example run_numeric_patterns :
  run exact_Minimatch
      (mkInvocation (Some 7%Z) sample_facts (JObj [("bug", JObj [("patterns", JNum 3)])]))
  = [SetFailed (patterns_error "bug")].
Proof. reflexivity. Qed.

Example parse_null_body :
  parse_entry "bug" JNull = Throw TypeError.
Proof. reflexivity. Qed.

Example parse_null_before_bad_patterns :
  getLabelGlobMapFromObject
    (JObj [("a", JNull); ("bug", JObj [("patterns", JNum 3)])])
  = Throw TypeError.
Proof. reflexivity. Qed.

Example updateLabels_first_seen_order :
  updateLabels ["a"; "b"; "a"] ["c"; "b"; "d"] ["b"] = ["a"; "c"; "d"].
Proof. reflexivity. Qed.

(** ** Where the code departs from the specification *)

(** C3 fails on an array that holds something else than strings: the
    specification has the parse fail, the parser returns the array. *)
Lemma array_elements_unchecked :
  get_field numeric_patterns_entry "type" = Ok JUndefined
  /\ get_field numeric_patterns_entry "patterns" = Ok (JArr [JNum 1])
  /\ spec_patterns (spec_trigger JUndefined) (JArr [JNum 1]) = None
  /\ parse_entry "bug" numeric_patterns_entry
     = Ok (mkLabelerKey "bug" LabelType.filesChanged false false, [JNum 1]).
Proof. repeat split. Qed.

(** C4 fails on a type that is a string outside the four kinds: the
    specification has the rule be a files-changed rule, the parser keeps
    the string, and the rule loop then treats the rule unlike a
    files-changed rule. *)
Lemma unrecognized_type_kept :
  get_field bogus_type_entry "type" = Ok (JStr "bogus")
  /\ spec_trigger (JStr "bogus") = LabelType.filesChanged
  /\ parse_entry "docs" bogus_type_entry
     = Ok (mkLabelerKey "docs" "bogus" false false, [JStr "README.md"])
  /\ type (mkLabelerKey "docs" "bogus" false false) <> LabelType.filesChanged
  /\ process_rule exact_Minimatch sample_facts ([], [])
       (mkLabelerKey "docs" "bogus" false false, [JStr "README.md"])
     = Ok ([], [])
  /\ process_rule exact_Minimatch sample_facts ([], [])
       (mkLabelerKey "docs" LabelType.filesChanged false false, [JStr "README.md"])
     = Ok (["docs"], []).
Proof. repeat split. discriminate. Qed.

(** C5 fails on an empty array of patterns: the parse succeeds with a
    files-changed rule that has no pattern. *)
Lemma empty_patterns_accepted :
  getLabelGlobMapFromObject empty_patterns_config
  = Ok [(mkLabelerKey "bug" LabelType.filesChanged false false, [])]
  /\ ~ spec_patterns_nonempty
        (mkLabelerKey "bug" LabelType.filesChanged false false) [].
Proof.
  split; [reflexivity |].
  intros H. apply H; [now left | reflexivity].
Qed.

(** ** The theorems at sample inputs *)


Lemma opened_only_rule_skipped_witness :
  opened_only triage_key = true
  /\ action sample_facts <> Some "opened"
  /\ forall d, process_rule exact_Minimatch sample_facts d (triage_key, [JNum 1]) = Ok d.
Proof.
  split; [reflexivity |]. split; [discriminate |].
  apply (opened_only_rule_skipped exact_Minimatch sample_facts triage_key [JNum 1]).
  - reflexivity.
  - discriminate.
Defined.

Lemma checkGlobs_any_match_witness :
  Forall (compiles exact_Minimatch) [JStr "docs.md"; JStr "main.go"]
  /\ exists b, checkGlobs exact_Minimatch ["README.md"; "main.go"]
                         [JStr "docs.md"; JStr "main.go"] = Ok b.
Proof.
  assert (H : Forall (compiles exact_Minimatch) [JStr "docs.md"; JStr "main.go"])
    by (repeat constructor; eexists; reflexivity).
  split; [exact H |].
  apply (checkGlobs_any_match exact_Minimatch ["README.md"; "main.go"] _ H).
Defined.

Lemma parse_entry_patterns_witness :
  get_field numeric_patterns_entry "type" = Ok JUndefined
  /\ get_field numeric_patterns_entry "patterns" = Ok (JArr [JNum 1])
  /\ exists key, parse_entry "bug" numeric_patterns_entry = Ok (key, [JNum 1]).
Proof.
  split; [reflexivity |]. split; [reflexivity |].
  apply (parse_entry_patterns exact_Minimatch "bug" numeric_patterns_entry
           JUndefined (JArr [JNum 1])); reflexivity.
Defined.

Lemma parse_entry_type_witness :
  parse_entry "docs" bogus_type_entry
  = Ok (mkLabelerKey "docs" "bogus" false false, [JStr "README.md"])
  /\ get_field bogus_type_entry "type" = Ok (JStr "bogus")
  /\ type (mkLabelerKey "docs" "bogus" false false) = "bogus".
Proof.
  split; [reflexivity |]. split; [reflexivity |].
  apply (parse_entry_type "docs" bogus_type_entry (JStr "bogus")
           (mkLabelerKey "docs" "bogus" false false) [JStr "README.md"]);
    reflexivity.
Defined.

Lemma parsed_patterns_origin_witness :
  getLabelGlobMapFromObject empty_patterns_config
  = Ok [(mkLabelerKey "bug" LabelType.filesChanged false false, [])]
  /\ exists body,
      In ("bug", body) (for_in empty_patterns_config)
      /\ ((exists p, get_field body "patterns" = Ok (JStr p) /\ [] = [JStr p])
          \/ get_field body "patterns" = Ok (JArr [])).
Proof.
  split; [reflexivity |].
  apply (proj1 (parsed_patterns_origin exact_Minimatch empty_patterns_config
                  [(mkLabelerKey "bug" LabelType.filesChanged false false, [])]
                  (mkLabelerKey "bug" LabelType.filesChanged false false) []
                  eq_refl (or_introl eq_refl) (or_introl eq_refl))).
Defined.

Lemma unrecognized_type_inert_witness :
  get_field bogus_type_entry "type" = Ok (JStr "bogus")
  /\ recognized "bogus" = false
  /\ get_field bogus_type_entry "patterns" = Ok (JStr "README.md")
  /\ exists key globs,
      parse_entry "docs" bogus_type_entry = Ok (key, globs)
      /\ (forall facts d, process_rule exact_Minimatch facts d (key, globs) = Ok d)
      /\ (forall facts before after d,
            process_rules exact_Minimatch facts (before ++ (key, globs) :: after) d
            = process_rules exact_Minimatch facts (before ++ after) d).
Proof.
  split; [reflexivity |]. split; [reflexivity |]. split; [reflexivity |].
  apply (unrecognized_type_inert exact_Minimatch "docs" "bogus" bogus_type_entry
           (JStr "README.md")); try reflexivity.
  left. eexists. reflexivity.
Defined.

(** ** The further properties at sample inputs *)

Lemma parsed_labels_in_order_witness :
  exists rules,
    getLabelGlobMapFromObject two_kinds_config = Ok rules
    /\ map (fun r => label (fst r)) rules = ["docs"; "wip"].
Proof.
  eexists. split; [reflexivity |].
  apply (parsed_labels_in_order two_kinds_config _ eq_refl).
Defined.

Lemma parse_throws_first_failure_witness :
  parse_entry "bug" (JObj [("patterns", JNum 3)]) = Throw (patterns_error "bug")
  /\ getLabelGlobMapFromObject failing_config = Throw (patterns_error "bug").
Proof.
  split; [reflexivity |].
  apply (parse_throws_first_failure failing_config
           [("docs", JObj [("patterns", JArr [JStr "README.md"; JNum 1])])] []
           "bug" (JObj [("patterns", JNum 3)]) (patterns_error "bug") eq_refl).
  - repeat constructor. eexists. reflexivity.
  - reflexivity.
Defined.

Lemma parse_entry_flags_witness :
  parse_entry "docs" flags_entry
  = Ok (mkLabelerKey "docs" LabelType.filesChanged false true, [JStr "docs.md"])
  /\ removable (mkLabelerKey "docs" LabelType.filesChanged false true) = false
  /\ opened_only (mkLabelerKey "docs" LabelType.filesChanged false true) = true.
Proof.
  split; [reflexivity |].
  apply (parse_entry_flags "docs" flags_entry (JStr "true") (JBool true)
           (mkLabelerKey "docs" LabelType.filesChanged false true) [JStr "docs.md"]);
    reflexivity.
Defined.

Lemma checkGlobs_refused_glob_witness :
  Forall (compiles exact_Minimatch) [JStr "main.go"]
  /\ exact_Minimatch (JNum 1) = Throw TypeError
  /\ exists b,
      checkGlobs exact_Minimatch ["README.md"] [JStr "main.go"] = Ok b
      /\ checkGlobs exact_Minimatch ["README.md"]
                    ([JStr "main.go"] ++ JNum 1 :: [JStr "README.md"])
         = if b then Ok true else Throw TypeError.
Proof.
  assert (H : Forall (compiles exact_Minimatch) [JStr "main.go"])
    by (repeat constructor; eexists; reflexivity).
  split; [exact H |]. split; [reflexivity |].
  apply (checkGlobs_refused_glob exact_Minimatch ["README.md"] [JStr "main.go"]
           [JStr "README.md"] (JNum 1) TypeError H eq_refl).
Defined.

Lemma checkGlobs_monotone_witness :
  checkGlobs exact_Minimatch ["main.go"] [JStr "main.go"] = Ok true
  /\ checkGlobs exact_Minimatch ["README.md"; "main.go"]
                [JStr "docs.md"; JStr "main.go"] = Ok true.
Proof.
  split; [reflexivity |].
  apply (checkGlobs_monotone exact_Minimatch ["main.go"] ["README.md"; "main.go"]
           [JStr "main.go"] [JStr "docs.md"; JStr "main.go"]).
  - repeat constructor; eexists; reflexivity.
  - intros x [<- | []]. simpl. auto.
  - intros x [<- | []]. simpl. auto.
  - reflexivity.
Defined.

Lemma decision_from_rules_witness :
  decide_labels exact_Minimatch sample_facts
                [(docs_key, [JStr "README.md"]); (triage_key, [JStr "main.go"])]
  = Ok (["docs"], [])
  /\ List.length ["docs"] + List.length (@nil string) <= 2.
Proof.
  split; [reflexivity |].
  apply (decision_from_rules exact_Minimatch sample_facts
           [(docs_key, [JStr "README.md"]); (triage_key, [JStr "main.go"])]
           ["docs"] [] eq_refl).
Defined.

Lemma updateLabels_nothing_new_witness :
  NoDup ["bug"; "docs"] /\ updateLabels ["bug"; "docs"] ["docs"] ["stale"] = ["bug"; "docs"].
Proof.
  assert (H : NoDup ["bug"; "docs"])
    by (repeat constructor; simpl; intuition discriminate).
  split; [exact H |].
  apply (updateLabels_nothing_new ["bug"; "docs"] ["docs"] ["stale"] H).
  - intros x [<- | []]. simpl. auto.
  - intros x [<- | []]. simpl. intuition discriminate.
Defined.

Lemma run_without_rules_witness :
  for_in JNull = []
  /\ run exact_Minimatch (mkInvocation (Some 7%Z) sample_facts JNull) = [].
Proof.
  split; [reflexivity |].
  apply (run_without_rules exact_Minimatch
           (mkInvocation (Some 7%Z) sample_facts JNull) eq_refl).
Defined.

Lemma run_alwaysRemove_witness :
  In (ReplaceLabels 7%Z []) (run exact_Minimatch sample_invocation)
  /\ ~ In "stale" (@nil string).
Proof.
  assert (H : In (ReplaceLabels 7%Z []) (run exact_Minimatch sample_invocation))
    by (left; reflexivity).
  split; [exact H |].
  apply (run_alwaysRemove exact_Minimatch sample_invocation 7%Z []
           [(mkLabelerKey "stale" LabelType.alwaysRemove false false,
             [JStr "not applicable"]);
            (mkLabelerKey "bug" LabelType.filesChanged true false, [JStr "main.c"])]
           (mkLabelerKey "stale" LabelType.alwaysRemove false false)
           [JStr "not applicable"] H eq_refl).
  - left. reflexivity.
  - reflexivity.
  - reflexivity.
Defined.

Lemma run_touches_rule_labels_witness :
  In (ReplaceLabels 7%Z ["bug"; "stale"; "docs"; "wip"]) (run exact_Minimatch two_kinds_invocation)
  /\ forall x, In x ["bug"; "stale"; "docs"; "wip"] ->
               In x (current_labels sample_facts)
               \/ exists key globs,
                   In (key, globs)
                      [(mkLabelerKey "docs" LabelType.filesChanged false false,
                        [JStr "README.md"]);
                       (mkLabelerKey "wip" LabelType.title false false,
                        [JStr "Fix typo"])]
                   /\ label key = x.
Proof.
  assert (H : In (ReplaceLabels 7%Z ["bug"; "stale"; "docs"; "wip"])
                 (run exact_Minimatch two_kinds_invocation))
    by (left; reflexivity).
  split; [exact H |].
  apply (run_touches_rule_labels exact_Minimatch two_kinds_invocation 7%Z
           ["bug"; "stale"; "docs"; "wip"] _ H eq_refl).
Defined.

Lemma earlier_config_still_parses_witness :
  exists rs rules,
    Main.getLabelGlobMapFromObject two_kinds_config = Ok rs
    /\ getLabelGlobMapFromObject two_kinds_config = Ok rules
    /\ map earlier_rule rules = rs.
Proof.
  eexists.
  destruct (earlier_config_still_parses two_kinds_config _ eq_refl)
    as (rules & Hp & Hm).
  exists rules. split; [reflexivity |]. split; assumption.
Defined.

Lemma later_entry_in_earlier_revision_witness :
  parse_entry "stale" (JObj [("type", JStr "alwaysRemove")])
  = Ok (mkLabelerKey "stale" LabelType.alwaysRemove false false, [JStr "not applicable"])
  /\ Main.parse_entry "stale" (JObj [("type", JStr "alwaysRemove")])
     = Throw (patterns_error "stale").
Proof.
  split; [reflexivity |].
  destruct (later_entry_in_earlier_revision "stale"
              (JObj [("type", JStr "alwaysRemove")])
              (mkLabelerKey "stale" LabelType.alwaysRemove false false)
              [JStr "not applicable"] eq_refl) as [H | (_ & _ & H)].
  - discriminate H.
  - exact H.
Defined.

Lemma revisions_add_the_same_witness :
  Main.labels_decided exact_Minimatch (earlier_invocation two_kinds_invocation)
  = (d <- labels_decided exact_Minimatch two_kinds_invocation ;; Ok (fst d)).
Proof.
  apply (revisions_add_the_same exact_Minimatch two_kinds_invocation _ eq_refl).
  repeat constructor.
Defined.

Lemma earlier_run_adds_witness :
  In (Main.AddLabels 7%Z ["docs"; "wip"])
     (Main.run exact_Minimatch (earlier_invocation two_kinds_invocation))
  /\ ["docs"; "wip"] <> [].
Proof.
  assert (H : In (Main.AddLabels 7%Z ["docs"; "wip"])
                 (Main.run exact_Minimatch (earlier_invocation two_kinds_invocation)))
    by (left; reflexivity).
  split; [exact H |].
  apply (earlier_run_adds exact_Minimatch _ 7%Z ["docs"; "wip"] H).
Defined.

Lemma run_bad_entry_witness :
  In ("bug", JObj [("patterns", JNum 3)]) (for_in failing_config)
  /\ parse_entry "bug" (JObj [("patterns", JNum 3)]) = Throw (patterns_error "bug")
  /\ exists e,
      run exact_Minimatch (mkInvocation (Some 7%Z) sample_facts failing_config)
      = [SetFailed e].
Proof.
  assert (H : In ("bug", JObj [("patterns", JNum 3)]) (for_in failing_config))
    by (right; left; reflexivity).
  split; [exact H |]. split; [reflexivity |].
  apply (proj2 (run_bad_entry exact_Minimatch
                  (mkInvocation (Some 7%Z) sample_facts failing_config)
                  "bug" (JObj [("patterns", JNum 3)]) (patterns_error "bug")
                  H eq_refl) 7%Z eq_refl).
  discriminate.
Defined.
